(** * The [useFetch] hook of "S11. React and TS/src/hooks/useFetch.ts"

    A shallow embedding of the typed data-fetch hook together with the part
    of the React and Promise run time it relies on:

    - [useState] is a state cell owned by the component instance;
    - [useEffect (..., [url])] runs its body after the first render and
      after every render whose [url] differs from the one of the previous
      render; the body registers no clean-up function;
    - [fetch(url)] returns a promise that settles on a later turn of the
      event loop; the three callbacks chained on it by [.then], [.then] and
      [.catch] run when it settles.

    The component is driven by events: a render with some [url] prop, the
    settlement of an outstanding [fetch], and the teardown of the
    component.  Every [setState] call is recorded in a log, tagged with the
    retrieval it belongs to. *)

From stdpp Require Import base strings list gmap pretty.

Set Warnings "-register-all".

(** ** Values *)

(** The result of [res.json()]: a JSON value.  [JNull] is JavaScript's
    [null].  Numbers are kept integral, which is all the payloads here need. *)
Inductive Json : Type :=
  | JNull
  | JBool (b : bool)
  | JNum (n : Z)
  | JStr (s : string)
  | JArr (items : list Json)
  | JObj (fields : list (string * Json)).

(** An [Error] object.  The reasons a [fetch] promise or a [res.json()]
    promise rejects with are such objects ([TypeError], [SyntaxError],
    [DOMException]), and so is [new Error(...)]. *)
Record JsError : Type := mkError {
  err_name : string;
  err_message : string
}.

(** [new Error(msg)] *)
Definition Error (msg : string) : JsError :=
  {| err_name := "Error"; err_message := msg |}.

(** [interface FetchState<T> { data: T | null; loading: boolean; error: T | null }]
    The type parameter is erased at run time: [data] holds whatever
    [res.json()] produced, [error] holds the caught error or [null]. *)
Record FetchState : Type := mkState {
  data : Json;
  loading : bool;
  error : option JsError
}.

(** What the hook reads of a [Response]: [res.ok], [res.status] and the
    settlement of [res.json()]. *)
Inductive Settled (A : Type) : Type :=
  | Fulfilled (a : A)
  | Rejected (e : JsError).
Arguments Fulfilled {A} a.
Arguments Rejected {A} e.

Record Response : Type := mkResponse {
  ok : bool;
  status : N;
  json : Settled Json
}.

(** ** Promise callbacks

    A callback either returns or throws, and may call [setState] on the way.
    [Calls] lists the arguments of the [setState] calls it made, in order. *)
Definition Calls : Type := list FetchState.
Definition Promise (A : Type) : Type := (Settled A * Calls)%type.

(** [p.then(f)]: [f] runs when [p] is fulfilled; a rejection passes through. *)
Definition then_ {A B : Type} (p : Promise A) (f : A → Promise B) : Promise B :=
  match p with
  | (Fulfilled a, cs) => let '(r, cs') := f a in (r, cs ++ cs')
  | (Rejected e, cs) => (Rejected e, cs)
  end.

(** [p.catch(g)]: [g] runs when [p] is rejected; a value passes through. *)
Definition catch_ {A : Type} (p : Promise A) (g : JsError → Promise A) : Promise A :=
  match p with
  | (Fulfilled a, cs) => (Fulfilled a, cs)
  | (Rejected e, cs) => let '(r, cs') := g e in (r, cs ++ cs')
  end.

(** ** The hook *)

(** The argument of [useState], and of the [setState] call that opens the
    effect: [{ data: null, loading: true, error: null }]. *)
Definition loading_state : FetchState :=
  {| data := JNull; loading := true; error := None |}.

(** [`Request failed with status ${res.status}`] *)
Definition status_message (n : N) : string :=
  "Request failed with status " +:+ pretty n.

(** [(res) => { if (!res.ok) throw new Error(...); return res.json() }] *)
Definition on_response (res : Response) : Promise Json :=
  if negb (ok res) then (Rejected (Error (status_message (status res))), [])
  else (json res, []).

(** [(data) => { setState({ data, loading: false, error: null }) }] *)
Definition on_data (d : Json) : Promise unit :=
  (Fulfilled tt, [ {| data := d; loading := false; error := None |} ]).

(** [(err) => { setState({ data: null, loading: false, error: err }) }] *)
Definition on_error (err : JsError) : Promise unit :=
  (Fulfilled tt, [ {| data := JNull; loading := false; error := Some err |} ]).

(** [fetch(url).then(...).then(...).catch(...)], run on the settlement
    [r] of [fetch(url)]. *)
Definition chain (r : Settled Response) : Promise unit :=
  catch_ (then_ (then_ (r, []) on_response) on_data) on_error.

(** ** The component instance *)

Inductive PubKind : Type := Trigger | Settle.

(** One [setState] call: the retrieval it belongs to, that retrieval's
    url, whether it is the call that opens the effect or one made from a
    promise callback, and its argument. *)
Record Pub : Type := mkPub {
  pub_req : nat;
  pub_url : string;
  pub_kind : PubKind;
  pub_state : FetchState
}.

Record World : Type := mkWorld {
  hook_state : FetchState;          (* the [useState] cell *)
  deps : option string;             (* [url] of the last render, if any *)
  alive : bool;                     (* false once torn down *)
  next_req : nat;                   (* number of [fetch] calls so far *)
  inflight : gmap nat string;       (* unsettled [fetch] promises *)
  fetches : list (nat * string);    (* log of [fetch] calls *)
  published : list Pub              (* log of [setState] calls *)
}.

Definition init : World :=
  {| hook_state := loading_state; deps := None; alive := true;
     next_req := 0; inflight := ∅; fetches := []; published := [] |}.

(** [setState(s)] made on behalf of retrieval [rid]: the call is logged;
    React stores [s] when the component is still mounted and drops it
    otherwise. *)
Definition setState (rid : nat) (u : string) (k : PubKind) (s : FetchState)
    (w : World) : World :=
  {| hook_state := if alive w then s else hook_state w;
     deps := deps w; alive := alive w; next_req := next_req w;
     inflight := inflight w; fetches := fetches w;
     published := published w ++ [mkPub rid u k s] |}.

(** [fetch(url)]: a new outstanding promise. *)
Definition fetch (u : string) (w : World) : World :=
  {| hook_state := hook_state w; deps := deps w; alive := alive w;
     next_req := S (next_req w);
     inflight := <[next_req w := u]> (inflight w);
     fetches := fetches w ++ [(next_req w, u)];
     published := published w |}.

(** The body of the effect. *)
Definition effect (u : string) (w : World) : World :=
  fetch u (setState (next_req w) u Trigger loading_state w).

Definition set_deps (u : string) (w : World) : World :=
  {| hook_state := hook_state w; deps := Some u; alive := alive w;
     next_req := next_req w; inflight := inflight w; fetches := fetches w;
     published := published w |}.

(** One render of the component with prop [url]: the hook returns the
    current state; after the commit the effect runs when [url] changed. *)
Definition useFetch (url : string) (w : World) : FetchState * World :=
  (hook_state w,
   if decide (deps w = Some url) then w else effect url (set_deps url w)).

(** The settlement of retrieval [rid] with [r]: the callbacks run and
    their [setState] calls are applied in order. *)
Definition settle (rid : nat) (r : Settled Response) (w : World) : World :=
  match inflight w !! rid with
  | None => w
  | Some u =>
      let w' := {| hook_state := hook_state w; deps := deps w; alive := alive w;
                   next_req := next_req w; inflight := delete rid (inflight w);
                   fetches := fetches w; published := published w |} in
      foldl (λ acc s, setState rid u Settle s acc) w' (snd (chain r))
  end.

Definition unmount (w : World) : World :=
  {| hook_state := hook_state w; deps := deps w; alive := false;
     next_req := next_req w; inflight := inflight w; fetches := fetches w;
     published := published w |}.

Inductive Event : Type :=
  | Render (url : string)
  | Settles (rid : nat) (r : Settled Response)
  | Unmount.

Definition step (w : World) (e : Event) : World :=
  match e with
  | Render url => if alive w then snd (useFetch url w) else w
  | Settles rid r => settle rid r w
  | Unmount => unmount w
  end.

Definition run (evs : list Event) : World := foldl step init evs.

(** ** The forms of the request state *)

Definition absent (j : Json) : Prop := j = JNull.
Definition present (j : Json) : Prop := j ≠ JNull.

Definition form_a (s : FetchState) : Prop :=
  loading s = true ∧ absent (data s) ∧ error s = None.
Definition form_b (s : FetchState) : Prop :=
  loading s = false ∧ present (data s) ∧ error s = None.
Definition form_c (s : FetchState) : Prop :=
  loading s = false ∧ absent (data s) ∧ is_Some (error s).
(** Not loading, no data, no error. *)
Definition form_empty (s : FetchState) : Prop :=
  loading s = false ∧ absent (data s) ∧ error s = None.

Definition todo1 : Json :=
  JObj [("userId"%string, JNum 1); ("id"%string, JNum 1);
        ("title"%string, JStr "delectus aut autem");
        ("completed"%string, JBool false)].

(** ** Notions used in the statements *)

Definition data_state (d : Json) : FetchState :=
  {| data := d; loading := false; error := None |}.
Definition error_state (e : JsError) : FetchState :=
  {| data := JNull; loading := false; error := Some e |}.

(** The state a settlement publishes. *)
Definition outcome (r : Settled Response) : FetchState :=
  match r with
  | Rejected e => error_state e
  | Fulfilled res =>
      if ok res then
        match json res with
        | Fulfilled d => data_state d
        | Rejected e => error_state e
        end
      else error_state (Error (status_message (status res)))
  end.

(** A retrieval is superseded once a later [fetch] has been issued. *)
Definition superseded (rid : nat) (w : World) : Prop := S rid < next_req w.

Definition ok_response (d : Json) : Settled Response :=
  Fulfilled (mkResponse true 200 (Fulfilled d)).

(** In the log [l], every call made from a promise callback comes after
    the call that opened the effect of the same retrieval. *)
Definition log_ordered (l : list Pub) : Prop :=
  ∀ l1 p l2, l = l1 ++ p :: l2 → pub_kind p = Settle →
    ∃ q, q ∈ l1 ∧ pub_req q = pub_req p ∧ pub_url q = pub_url p
         ∧ pub_kind q = Trigger ∧ pub_state q = loading_state.

Record Inv (w : World) : Prop := {
  inv_inflight : ∀ rid u, inflight w !! rid = Some u →
    rid < next_req w ∧ mkPub rid u Trigger loading_state ∈ published w;
  inv_published : ∀ p, p ∈ published w → pub_req p < next_req w;
  inv_ordered : log_ordered (published w);
  inv_fetches : length (fetches w) = next_req w
}.

(** What each kind of [setState] call carries. *)
Definition pub_wf (p : Pub) : Prop :=
  match pub_kind p with
  | Trigger => pub_state p = loading_state
  | Settle => ∃ r, pub_state p = outcome r
  end.

(** The events of a run that can leave the state without data and without
    error: a settlement with an ok response whose body parsed to [null]. *)
Definition null_payload (e : Event) : Prop :=
  ∃ rid n, e = Settles rid (Fulfilled (mkResponse true n (Fulfilled JNull))).

(** The three kinds of failed retrieval, with the error each one raises
    inside the promise chain: the [fetch] promise rejects (transport), the
    response is not ok (status), or [res.json()] rejects (parse). *)
Inductive Failure : Settled Response → JsError → Prop :=
  | transport_failure (e : JsError) :
      Failure (Rejected e) e
  | status_failure (res : Response) :
      ok res = false →
      Failure (Fulfilled res) (Error (status_message (status res)))
  | parse_failure (res : Response) (e : JsError) :
      ok res = true → json res = Rejected e →
      Failure (Fulfilled res) e.

(** The triggers of a run, counted on the events alone: a render of the
    mounted component whose url differs from the url of the previous
    render (the first render always counts). *)
Fixpoint triggers (prev : option string) (live : bool) (evs : list Event) : nat :=
  match evs with
  | [] => 0
  | Render u :: evs' =>
      if live then
        (if decide (prev = Some u) then 0 else 1) + triggers (Some u) live evs'
      else triggers prev live evs'
  | Settles _ _ :: evs' => triggers prev live evs'
  | Unmount :: evs' => triggers prev false evs'
  end.

Definition is_settlement (e : Event) : bool :=
  match e with Settles _ _ => true | _ => false end.

(** ** Counting publications *)

#[global] Instance PubKind_eq_dec : EqDecision PubKind.
Proof. solve_decision. Defined.

(** The number of [setState] calls of kind [k] that the log [l] holds for
    retrieval [rid]. *)
Definition count_pubs (rid : nat) (k : PubKind) (l : list Pub) : nat :=
  length (filter (λ p, pub_req p = rid ∧ pub_kind p = k) l).

(** * The components of the demo application

    The components are functions from props (and state) to a tree of
    React elements.  An element of a function component is identified with
    the tree that component returns. *)

(** A value in child position ([ReactNode]).  Numbers are integral. *)
Inductive Node : Type :=
  | NUndefined
  | NNull
  | NBool (b : bool)
  | NNum (n : Z)
  | NStr (s : string)
  | NElem (tag : string) (children : list Node)
  | NArr (items : list (Z * Node)).        (* an array of keyed elements *)

(** JavaScript truthiness, and [a && b]. *)
Definition truthy (a : Node) : bool :=
  match a with
  | NUndefined | NNull => false
  | NBool b => b
  | NNum n => negb (n =? 0)%Z
  | NStr s => negb (String.eqb s "")
  | NElem _ _ | NArr _ => true
  end.

Definition js_and (a b : Node) : Node := if truthy a then b else a.

(** The text React puts on the page for a node: nothing for [undefined],
    [null] and booleans, the decimal digits of a number, a string as it
    is, and the texts of the children of an element or array in order. *)
Fixpoint text_of (n : Node) : string :=
  match n with
  | NUndefined | NNull | NBool _ => ""
  | NNum z => pretty z
  | NStr s => s
  | NElem _ cs =>
      (fix go (l : list Node) : string :=
         match l with
         | [] => ""
         | c :: l' => text_of c +:+ go l'
         end) cs
  | NArr items =>
      (fix go (l : list (Z * Node)) : string :=
         match l with
         | [] => ""
         | (_, c) :: l' => text_of c +:+ go l'
         end) items
  end.


(** ** [ChaiCard] ("components/Chaicard.tsx") *)

(** [interface ChaiCardProp { name: string; price: number; isSpecial?: boolean }] *)
Record ChaiCardProp : Type := mkChaiCardProp {
  card_name : string;
  card_price : Z;
  card_isSpecial : option bool
}.

(** [function ChaiCard({ name, price, isSpecial = false })] *)
Definition ChaiCard (props : ChaiCardProp) : Node :=
  let isSpecial := default false (card_isSpecial props) in
  NElem "article"
    [ NElem "h2" [ NStr (card_name props); NStr " ";
                   js_and (NBool isSpecial) (NElem "span" [NStr "**"]) ];
      NElem "p" [ NNum (card_price props) ] ].

(** ** [ChaiList] *)

(** The fields of [Chai] that the components read; the interface is
    declared in "types.ts". *)
Record Chai : Type := mkChai {
  chai_id : Z;
  chai_name : string;
  chai_price : Z
}.

(** [function ChaiList({ items })] *)
Definition ChaiList (items : list Chai) : Node :=
  NElem "div"
    [ NArr (map (λ chai,
                   (chai_id chai,
                    ChaiCard {| card_name := chai_name chai;
                                card_price := chai_price chai;
                                card_isSpecial :=
                                  Some (bool_decide (30 < chai_price chai)%Z) |}))
                items) ].



(** ** [Card] *)

(** [function Card({ title, children, footer })]; an omitted optional
    prop is [NUndefined]. *)
Definition Card (title : string) (children footer : Node) : Node :=
  NElem "section"
    [ NElem "h2" [NStr title];
      NElem "div" [children];
      js_and footer (NElem "footer" [footer]) ].

(** ** [Counter] *)

(** [c + 1] on a number that is an integer between 0 and 2^53: the
    successor is exact below 2^53, and 2^53 + 1 rounds back to 2^53. *)
Definition js_succ (c : Z) : Z :=
  if decide (c < 2 ^ 53)%Z then (c + 1)%Z else c.

(** The state cell of [useState<number>(0)] with the updater functions
    queued by [setCount] since the last render. *)
Record CounterState : Type := mkCounter {
  counter_count : Z;
  counter_queue : list (Z → Z)
}.

Definition counter_init : CounterState :=
  {| counter_count := 0; counter_queue := [] |}.

(** [onClick={() => setCount((c) => c + 1)}] *)
Definition onClick (st : CounterState) : CounterState :=
  {| counter_count := counter_count st;
     counter_queue := counter_queue st ++ [js_succ] |}.

(** A render: the queued updaters are applied in order, and the component
    returns its tree. *)
Definition Counter (st : CounterState) : Node * CounterState :=
  let count := foldl (λ c f, f c) (counter_count st) (counter_queue st) in
  (NElem "div"
     [ NElem "p" [NStr "Cups ordered : "; NNum count];
       NElem "button" [NStr "Order one more"] ],
   {| counter_count := count; counter_queue := [] |}).

(** The count the next render will show. *)
Definition flushed (st : CounterState) : Z :=
  foldl (λ c f, f c) (counter_count st) (counter_queue st).

Inductive CounterEvent : Type := Click | Rerender.

#[global] Instance CounterEvent_eq_dec : EqDecision CounterEvent.
Proof. solve_decision. Defined.

Definition counter_step (st : CounterState) (e : CounterEvent) : CounterState :=
  match e with
  | Click => onClick st
  | Rerender => snd (Counter st)
  end.

Definition clicks (evs : list CounterEvent) : nat :=
  length (filter (λ e, e = Click) evs).

(** ** [OrderForm] ("components/OrderForm.tsx") *)

Section OrderForm.

(** JavaScript numbers, the conversion [Number(...)] of the text of an
    input, and the literal [1] are left abstract. *)
Context {number : Type} (Number : string → number) (one : number).

(** The argument of [onSubmit]: [{ name: string; cups: number }]. *)
Record Order : Type := mkOrder {
  order_name : string;
  order_cups : number
}.

(** The two [useState] cells. *)
Record FormState : Type := mkForm {
  form_name : string;
  form_cups : number
}.

(** The calls the form makes on its environment. *)
Inductive FormCall : Type :=
  | PreventDefault
  | OnSubmit (order : Order).

Inductive FormEvent : Type :=
  | ChangeName (value : string)      (* [onChange] of the first input *)
  | ChangeCups (value : string)      (* [onChange] of the second input *)
  | Submit.                          (* [onSubmit] of the form *)

(** [useState<string>("Masala")], [useState<number>(1)] *)
Definition form_init : FormState :=
  {| form_name := "Masala"; form_cups := one |}.

(** [function handleSubmit(e) { e.preventDefault(); onSubmit({ name, cups }) }] *)
Definition handleSubmit (st : FormState) : list FormCall :=
  [ PreventDefault;
    OnSubmit {| order_name := form_name st; order_cups := form_cups st |} ].

Definition form_step (w : FormState * list FormCall) (e : FormEvent)
    : FormState * list FormCall :=
  match e with
  | ChangeName v => ({| form_name := v; form_cups := form_cups (fst w) |}, snd w)
  | ChangeCups v =>
      ({| form_name := form_name (fst w); form_cups := Number v |}, snd w)
  | Submit => (fst w, snd w ++ handleSubmit (fst w))
  end.

Definition OrderForm (evs : list FormEvent) : FormState * list FormCall :=
  foldl form_step (form_init, []) evs.

(** The text last typed into each input, if any. *)
Definition typed_name (evs : list FormEvent) : option string :=
  last (omap (λ e, match e with ChangeName v => Some v | _ => None end) evs).
Definition typed_cups (evs : list FormEvent) : option string :=
  last (omap (λ e, match e with ChangeCups v => Some v | _ => None end) evs).

End OrderForm.

(** * Properties *)

Example status_message_404 : status_message 404 = "Request failed with status 404".
Proof. reflexivity. Qed.

(** Scenario B: a not-found status for "/todos/999999". *)
Example scenario_not_found :
  hook_state (run [Render "/todos/999999";
                   Settles 0 (Fulfilled (mkResponse false 404 (Fulfilled (JObj []))))])
  = {| data := JNull; loading := false;
       error := Some (Error "Request failed with status 404") |}.
Proof. reflexivity. Qed.

(** Scenario C as the code runs it: the url changes from "/todos/1" to
    "/todos/2" before the first retrieval settles; the second settles,
    then the first: both results are published and the first one, settled
    last, is the final state. *)
Example scenario_url_change :
  let w := run [Render "/todos/1"; Render "/todos/2";
                Settles 1 (ok_response (JStr "two"));
                Settles 0 (ok_response (JStr "one"))] in
  map pub_state (published w)
  = [loading_state; loading_state; data_state (JStr "two"); data_state (JStr "one")]
  ∧ hook_state w = data_state (JStr "one")
  ∧ deps w = Some "/todos/2"
  ∧ fetches w = [(0, "/todos/1"); (1, "/todos/2")].
Proof. cbv zeta. repeat split; reflexivity. Qed.

(** ** The callbacks, case by case *)

Lemma chain_rejected (e : JsError) :
  chain (Rejected e) = (Fulfilled tt, [error_state e]).
Proof. reflexivity. Qed.

Lemma chain_not_ok (n : N) (j : Settled Json) :
  chain (Fulfilled (mkResponse false n j))
  = (Fulfilled tt, [error_state (Error (status_message n))]).
Proof. reflexivity. Qed.

Lemma chain_ok_data (n : N) (d : Json) :
  chain (Fulfilled (mkResponse true n (Fulfilled d)))
  = (Fulfilled tt, [data_state d]).
Proof. reflexivity. Qed.

Lemma chain_ok_unparsed (n : N) (e : JsError) :
  chain (Fulfilled (mkResponse true n (Rejected e)))
  = (Fulfilled tt, [error_state e]).
Proof. reflexivity. Qed.

Lemma chain_outcome (r : Settled Response) :
  chain r = (Fulfilled tt, [outcome r]).
Proof.
  destruct r as [[[] n [d|e]]|e]; reflexivity.
Qed.

Lemma outcome_not_loading (r : Settled Response) : loading (outcome r) = false.
Proof.
  destruct r as [[[] n [d|e]]|e]; reflexivity.
Qed.

(** ** One step of the component *)

Lemma settle_inflight (w : World) (rid : nat) (u : string) (r : Settled Response) :
  inflight w !! rid = Some u →
  settle rid r w =
    {| hook_state := if alive w then outcome r else hook_state w;
       deps := deps w; alive := alive w; next_req := next_req w;
       inflight := delete rid (inflight w); fetches := fetches w;
       published := published w ++ [mkPub rid u Settle (outcome r)] |}.
Proof.
  intros Hin. unfold settle. rewrite Hin, chain_outcome. reflexivity.
Qed.

Lemma settle_unknown (w : World) (rid : nat) (r : Settled Response) :
  inflight w !! rid = None → settle rid r w = w.
Proof. intros Hin. unfold settle. by rewrite Hin. Qed.

Lemma render_same (w : World) (u : string) :
  deps w = Some u → step w (Render u) = w.
Proof.
  intros Hd. simpl. destruct (alive w); [|done].
  by rewrite decide_True.
Qed.

Lemma render_changed (w : World) (u : string) :
  alive w = true → deps w ≠ Some u →
  step w (Render u) =
    {| hook_state := loading_state; deps := Some u; alive := true;
       next_req := S (next_req w);
       inflight := <[next_req w := u]> (inflight w);
       fetches := fetches w ++ [(next_req w, u)];
       published := published w ++ [mkPub (next_req w) u Trigger loading_state] |}.
Proof.
  intros Ha Hd. simpl. rewrite Ha. simpl.
  rewrite decide_False by done.
  unfold effect, fetch, setState, set_deps. simpl. by rewrite Ha.
Qed.

Lemma render_dead (w : World) (u : string) :
  alive w = false → step w (Render u) = w.
Proof. intros Ha. simpl. by rewrite Ha. Qed.

Lemma run_snoc (evs : list Event) (e : Event) :
  run (evs ++ [e]) = step (run evs) e.
Proof. unfold run. by rewrite foldl_snoc. Qed.

(** ** Invariants of every run *)

Lemma snoc_split {A : Type} (l l1 l2 : list A) (x p : A) :
  l ++ [x] = l1 ++ p :: l2 →
  (l2 = [] ∧ p = x ∧ l1 = l) ∨ (∃ l2', l2 = l2' ++ [x] ∧ l = l1 ++ p :: l2').
Proof.
  destruct l2 as [|y l2 _] using rev_ind; intros Heq.
  - apply app_inj_tail in Heq as [-> ->]. by left.
  - right. exists l2.
    rewrite app_comm_cons, app_assoc in Heq.
    apply app_inj_tail in Heq as [-> ->]. done.
Qed.

Lemma log_ordered_nil : log_ordered [].
Proof. intros [|] ? ? Heq; discriminate. Qed.

Lemma log_ordered_trigger (l : list Pub) (p : Pub) :
  log_ordered l → pub_kind p = Trigger → log_ordered (l ++ [p]).
Proof.
  intros Hl Hp l1 p' l2 Heq Hk.
  apply snoc_split in Heq as [(_ & -> & _)|(l2' & -> & ->)]; [congruence|].
  by apply (Hl l1 p' l2').
Qed.

Lemma log_ordered_settle (l : list Pub) (rid : nat) (u : string) (s : FetchState) :
  log_ordered l → mkPub rid u Trigger loading_state ∈ l →
  log_ordered (l ++ [mkPub rid u Settle s]).
Proof.
  intros Hl Hin l1 p' l2 Heq Hk.
  apply snoc_split in Heq as [(_ & -> & ->)|(l2' & -> & ->)].
  - by exists (mkPub rid u Trigger loading_state).
  - by apply (Hl l1 p' l2').
Qed.

Lemma Inv_init : Inv init.
Proof.
  split; simpl.
  - intros rid u Hl. by rewrite lookup_empty in Hl.
  - intros p Hp. by apply elem_of_nil in Hp.
  - apply log_ordered_nil.
  - done.
Qed.

Lemma Inv_step (w : World) (e : Event) : Inv w → Inv (step w e).
Proof.
  intros [Hin Hpub Hord Hf]. destruct e as [u|rid r|].
  - destruct (alive w) eqn:Ha; [|by rewrite render_dead].
    destruct (decide (deps w = Some u)) as [Hd|Hd]; [by rewrite render_same|].
    rewrite render_changed by done. split; simpl.
    + intros rid u' Hl. apply lookup_insert_Some in Hl as [[<- <-]|[Hne Hl]].
      * split; [lia|]. apply elem_of_app. right. by apply list_elem_of_singleton.
      * destruct (Hin _ _ Hl) as [Hlt Hp]. split; [lia|].
        apply elem_of_app. by left.
    + intros p Hp. apply elem_of_app in Hp as [Hp|Hp].
      * specialize (Hpub _ Hp). lia.
      * apply list_elem_of_singleton in Hp as ->. simpl. lia.
    + by apply log_ordered_trigger.
    + rewrite length_app. simpl. lia.
  - simpl. destruct (inflight w !! rid) as [u|] eqn:Hl;
      [|by rewrite settle_unknown].
    rewrite (settle_inflight _ _ _ _ Hl). destruct (Hin _ _ Hl) as [Hlt Hp].
    split; simpl.
    + intros rid' u' Hl'. apply lookup_delete_Some in Hl' as [_ Hl'].
      destruct (Hin _ _ Hl') as [? ?]. split; [done|].
      apply elem_of_app. by left.
    + intros p Hp'. apply elem_of_app in Hp' as [Hp'|Hp'].
      * by apply Hpub.
      * by apply list_elem_of_singleton in Hp' as ->.
    + by apply log_ordered_settle.
    + done.
  - split; simpl; done.
Qed.

Lemma Inv_run (evs : list Event) : Inv (run evs).
Proof.
  induction evs as [|e evs IH] using rev_ind.
  - apply Inv_init.
  - rewrite run_snoc. by apply Inv_step.
Qed.

(** ** Staleness and teardown *)

(** C1, as stated, fails.  With the url changed from "/todos/1" to
    "/todos/2" while the first retrieval is outstanding, the settlement of
    the first retrieval calls [setState] with its result, which becomes the
    observed state although the current url is "/todos/2"; and with the
    component torn down while the retrieval for "/todos/1" is outstanding,
    its settlement still calls [setState]. *)
Lemma C1_stale_result_is_published :
  (let w := run [Render "/todos/1"; Render "/todos/2"] in
   let w' := step w (Settles 0 (ok_response todo1)) in
   inflight w !! 0 = Some "/todos/1" ∧ superseded 0 w
   ∧ deps w' = Some "/todos/2"
   ∧ published w' = published w ++ [mkPub 0 "/todos/1" Settle (data_state todo1)]
   ∧ published w' ≠ published w
   ∧ fst (useFetch "/todos/2" w') = data_state todo1)
  ∧
  (let w := run [Render "/todos/1"; Unmount] in
   let w' := step w (Settles 0 (ok_response todo1)) in
   inflight w !! 0 = Some "/todos/1" ∧ alive w = false
   ∧ published w' = published w ++ [mkPub 0 "/todos/1" Settle (data_state todo1)]
   ∧ published w' ≠ published w).
Proof.
  split; cbv zeta; repeat split; try reflexivity; try (unfold superseded; simpl; lia);
    vm_compute; discriminate.
Qed.

(** C1, amended: the hook has no staleness guard.  When an outstanding
    retrieval settles, exactly one [setState] call is made, with that
    retrieval's own result, whether or not its url has been superseded and
    whether or not the component has been torn down; the retrieval is then
    no longer outstanding.  While the component is mounted the result
    becomes the observed state; after teardown the stored state does not
    change. *)
Theorem C1_settlement_is_published_unguarded
    (evs : list Event) (rid : nat) (u : string) (r : Settled Response) :
  inflight (run evs) !! rid = Some u →
  let w := run evs in
  let w' := step w (Settles rid r) in
  chain r = (Fulfilled tt, [outcome r])
  ∧ published w' = published w ++ [mkPub rid u Settle (outcome r)]
  ∧ hook_state w' = (if alive w then outcome r else hook_state w)
  ∧ inflight w' !! rid = None
  ∧ deps w' = deps w ∧ alive w' = alive w.
Proof.
  intros Hin w w'. subst w'. simpl.
  rewrite (settle_inflight _ _ _ _ Hin). simpl.
  repeat split; try done.
  - apply chain_outcome.
  - apply lookup_delete_eq.
Qed.

Lemma C1_settlement_is_published_unguarded_witness :
  inflight (run [Render "/todos/1"; Render "/todos/2"]) !! 0 = Some "/todos/1"
  ∧ published (step (run [Render "/todos/1"; Render "/todos/2"])
                    (Settles 0 (ok_response todo1)))
    = published (run [Render "/todos/1"; Render "/todos/2"])
      ++ [mkPub 0 "/todos/1" Settle (outcome (ok_response todo1))].
Proof.
  split; [reflexivity|].
  apply (C1_settlement_is_published_unguarded
           [Render "/todos/1"; Render "/todos/2"] 0 "/todos/1" (ok_response todo1)).
  reflexivity.
Defined.

(** ** The forms of the observed state *)

Lemma outcome_forms (r : Settled Response) :
  form_b (outcome r) ∨ form_c (outcome r)
  ∨ (form_empty (outcome r)
     ∧ ∃ n, r = Fulfilled (mkResponse true n (Fulfilled JNull))).
Proof.
  destruct r as [[[] n [d|e]]|e]; simpl.
  - destruct d; try (left; by repeat split).
    right; right. split; [by repeat split|]. by exists n.
  - right; left. by repeat split.
  - right; left. by repeat split.
  - right; left. by repeat split.
  - right; left. by repeat split.
Qed.

Lemma forms_exclusive (s : FetchState) :
  (form_a s → ¬ form_b s ∧ ¬ form_c s ∧ ¬ form_empty s)
  ∧ (form_b s → ¬ form_c s ∧ ¬ form_empty s)
  ∧ (form_c s → ¬ form_empty s).
Proof.
  unfold form_a, form_b, form_c, form_empty, absent, present.
  destruct s as [d [] [e|]]; simpl;
    repeat split; intros; intros (? & ? & ?); try congruence;
    repeat match goal with
           | H : _ ∧ _ |- _ => destruct H
           | H : is_Some None |- _ => by destruct H
           end; congruence.
Qed.

Lemma run_forms (evs : list Event) :
  form_a (hook_state (run evs)) ∨ form_b (hook_state (run evs))
  ∨ form_c (hook_state (run evs))
  ∨ (form_empty (hook_state (run evs)) ∧ ∃ e, e ∈ evs ∧ null_payload e).
Proof.
  induction evs as [|e evs IH] using rev_ind.
  - left. by repeat split.
  - assert (Hkeep : hook_state (run (evs ++ [e])) = hook_state (run evs) →
      form_a (hook_state (run (evs ++ [e]))) ∨ form_b (hook_state (run (evs ++ [e])))
      ∨ form_c (hook_state (run (evs ++ [e])))
      ∨ (form_empty (hook_state (run (evs ++ [e])))
         ∧ ∃ e0, e0 ∈ evs ++ [e] ∧ null_payload e0)).
    { intros ->. destruct IH as [?|[?|[?|[? (e0 & He0 & Hn)]]]]; auto.
      do 3 right. split; [done|]. exists e0. split; [|done].
      apply elem_of_app. by left. }
    rewrite run_snoc in *. destruct e as [u|rid r|].
    + destruct (alive (run evs)) eqn:Ha; [|rewrite render_dead in * by done; auto].
      destruct (decide (deps (run evs) = Some u)) as [Hd|Hd].
      * rewrite render_same in * by done. auto.
      * rewrite render_changed by done. left. by repeat split.
    + simpl in *. destruct (inflight (run evs) !! rid) as [u|] eqn:Hl;
        [|rewrite settle_unknown in * by done; auto].
      rewrite (settle_inflight _ _ _ _ Hl) in *. simpl in *.
      destruct (alive (run evs)); [|auto].
      destruct (outcome_forms r) as [?|[?|[? [n ->]]]]; auto.
      do 3 right. split; [done|].
      exists (Settles rid (Fulfilled (mkResponse true n (Fulfilled JNull)))).
      split; [apply elem_of_app; right; by apply list_elem_of_singleton|].
      by exists rid, n.
    + simpl in *. auto.
Qed.

(** C2, as stated, fails: after an ok response whose body is the JSON
    value [null], the observed state is not loading, has no data and has
    no error, which is none of the forms (a), (b), (c). *)
Lemma C2_fourth_form_observed :
  let s := fst (useFetch "/todos/1"
                  (run [Render "/todos/1"; Settles 0 (ok_response JNull)])) in
  s = {| data := JNull; loading := false; error := None |}
  ∧ ¬ form_a s ∧ ¬ form_b s ∧ ¬ form_c s.
Proof.
  cbv zeta. split; [reflexivity|].
  unfold form_a, form_b, form_c, present. simpl.
  split; [|split]; intros (H1 & H2 & H3).
  - discriminate H1.
  - by apply H2.
  - by destruct H3.
Qed.

(** C2, amended: at every observation of the state returned by [useFetch]
    exactly one of four forms holds: (a), (b), (c), or the form with
    loading = false, data absent and error absent; the fourth form is
    observed only in runs in which a retrieval settled with an ok response
    whose body parsed to [null]. *)
Theorem C2_observed_state_forms (evs : list Event) (url : string) :
  let s := fst (useFetch url (run evs)) in
  (form_a s ∨ form_b s ∨ form_c s ∨ form_empty s)
  ∧ (form_a s → ¬ form_b s ∧ ¬ form_c s ∧ ¬ form_empty s)
  ∧ (form_b s → ¬ form_c s ∧ ¬ form_empty s)
  ∧ (form_c s → ¬ form_empty s)
  ∧ (form_empty s → ∃ e, e ∈ evs ∧ null_payload e)
  ∧ ((∀ e, e ∈ evs → ¬ null_payload e) → form_a s ∨ form_b s ∨ form_c s).
Proof.
  cbv zeta. simpl. pose proof (run_forms evs) as Hf.
  pose proof (forms_exclusive (hook_state (run evs))) as (Ha & Hb & Hc).
  split; [tauto|]. do 3 (split; [done|]).
  split.
  - intros He. destruct Hf as [H|[H|[H|[_ H]]]]; [| | |done].
    + by destruct (Ha H) as (_ & _ & []).
    + by destruct (Hb H) as (_ & []).
    + by destruct (Hc H).
  - intros Hno. destruct Hf as [H|[H|[H|[_ (e & He & Hn)]]]]; auto.
    by destruct (Hno e He).
Qed.

Lemma C2_observed_state_forms_witness :
  let s := fst (useFetch "/todos/1"
                  (run [Render "/todos/1"; Settles 0 (ok_response todo1)])) in
  (∀ e, e ∈ [Render "/todos/1"; Settles 0 (ok_response todo1)] → ¬ null_payload e)
  ∧ (form_a s ∨ form_b s ∨ form_c s).
Proof.
  cbv zeta.
  assert (Hno : ∀ e, e ∈ [Render "/todos/1"; Settles 0 (ok_response todo1)]
                     → ¬ null_payload e).
  { intros e He (rid & n & ->).
    repeat (apply elem_of_cons in He as [He|He]; [discriminate He|]).
    by apply elem_of_nil in He. }
  split; [exact Hno|].
  apply (C2_observed_state_forms
           [Render "/todos/1"; Settles 0 (ok_response todo1)] "/todos/1").
  exact Hno.
Defined.

(** ** Failure and success paths *)

Lemma failure_outcome (r : Settled Response) (e : JsError) :
  Failure r e → outcome r = error_state e.
Proof.
  intros [e'|res Hok|res e' Hok Hj]; simpl.
  - done.
  - by rewrite Hok.
  - by rewrite Hok, Hj.
Qed.

Lemma chain_fulfilled (r : Settled Response) : fst (chain r) = Fulfilled tt.
Proof. by rewrite chain_outcome. Qed.

(** C3: a retrieval that fails in any of the three ways publishes state
    form (c), whose error is the error object raised in the chain (for a
    non-ok response, the one carrying the status message); no further
    [fetch] is issued; and the promise returned by [.catch] is fulfilled
    whatever the settlement of [fetch], so nothing is left uncaught. *)
Theorem C3_failures_publish_form_c
    (evs : list Event) (rid : nat) (u : string)
    (r : Settled Response) (e : JsError) :
  Failure r e →
  inflight (run evs) !! rid = Some u →
  let w := run evs in
  let w' := step w (Settles rid r) in
  chain r = (Fulfilled tt, [error_state e])
  ∧ form_c (error_state e)
  ∧ published w' = published w ++ [mkPub rid u Settle (error_state e)]
  ∧ (alive w = true → hook_state w' = error_state e)
  ∧ fetches w' = fetches w
  ∧ (∀ r', fst (chain r') = Fulfilled tt).
Proof.
  intros Hf Hin w w'. subst w w'. simpl.
  rewrite (settle_inflight _ _ _ _ Hin). simpl.
  rewrite chain_outcome, (failure_outcome _ _ Hf).
  split; [done|]. split; [by repeat split; try eexists|].
  split; [done|]. split; [by intros ->|]. split; [done|].
  apply chain_fulfilled.
Qed.

Lemma C3_failures_publish_form_c_witness :
  Failure (Fulfilled (mkResponse false 404 (Fulfilled JNull)))
          (Error "Request failed with status 404")
  ∧ inflight (run [Render "/todos/999999"]) !! 0 = Some "/todos/999999"
  ∧ published (step (run [Render "/todos/999999"])
                 (Settles 0 (Fulfilled (mkResponse false 404 (Fulfilled JNull)))))
    = published (run [Render "/todos/999999"])
      ++ [mkPub 0 "/todos/999999" Settle
            (error_state (Error "Request failed with status 404"))].
Proof.
  assert (Hf : Failure (Fulfilled (mkResponse false 404 (Fulfilled JNull)))
                       (Error "Request failed with status 404")).
  { apply (status_failure (mkResponse false 404 (Fulfilled JNull))). reflexivity. }
  split; [exact Hf|]. split; [reflexivity|].
  apply (C3_failures_publish_form_c [Render "/todos/999999"] 0 "/todos/999999"
           _ _ Hf).
  reflexivity.
Defined.

(** C4: a retrieval that settles with an ok response whose body parses to
    [d] publishes [{ data: d, loading: false, error: null }], which is
    form (b) when [d] is a value of the expected shape (not [null]); in
    Scenario A the final state carries the todo object. *)
Theorem C4_success_publishes_form_b
    (evs : list Event) (rid : nat) (u : string) (res : Response) (d : Json) :
  inflight (run evs) !! rid = Some u →
  ok res = true → json res = Fulfilled d →
  let w := run evs in
  let w' := step w (Settles rid (Fulfilled res)) in
  published w' = published w
                 ++ [mkPub rid u Settle {| data := d; loading := false; error := None |}]
  ∧ (alive w = true →
     hook_state w' = {| data := d; loading := false; error := None |})
  ∧ (present d → form_b {| data := d; loading := false; error := None |})
  ∧ hook_state (run [Render "/todos/1"; Settles 0 (ok_response todo1)])
    = {| data := todo1; loading := false; error := None |}.
Proof.
  intros Hin Hok Hj w w'. subst w w'. simpl.
  rewrite (settle_inflight _ _ _ _ Hin). simpl. rewrite Hok, Hj.
  split; [done|]. split; [by intros ->|]. split; [|done].
  intros Hd. by repeat split.
Qed.

Lemma C4_success_publishes_form_b_witness :
  inflight (run [Render "/todos/1"]) !! 0 = Some "/todos/1"
  ∧ ok (mkResponse true 200 (Fulfilled todo1)) = true
  ∧ json (mkResponse true 200 (Fulfilled todo1)) = Fulfilled todo1
  ∧ present todo1
  ∧ published (step (run [Render "/todos/1"]) (Settles 0 (ok_response todo1)))
    = published (run [Render "/todos/1"])
      ++ [mkPub 0 "/todos/1" Settle
            {| data := todo1; loading := false; error := None |}].
Proof.
  repeat (split; [done|]).
  apply (C4_success_publishes_form_b [Render "/todos/1"] 0 "/todos/1"
           (mkResponse true 200 (Fulfilled todo1)) todo1);
    reflexivity.
Defined.

(** C9: there is a successful retrieval, an ok response whose body parses
    to the JSON value [null], after which the state is
    [{ data: null, loading: false, error: null }]: data absent, loading
    false, error absent. *)
Theorem C9_null_payload_state :
  ∃ res : Response,
    ok res = true ∧ json res = Fulfilled JNull
    ∧ chain (Fulfilled res)
      = (Fulfilled tt, [ {| data := JNull; loading := false; error := None |} ])
    ∧ hook_state (run [Render "/todos/1"; Settles 0 (Fulfilled res)])
      = {| data := JNull; loading := false; error := None |}
    ∧ form_empty (hook_state (run [Render "/todos/1"; Settles 0 (Fulfilled res)])).
Proof.
  exists (mkResponse true 200 (Fulfilled JNull)).
  repeat split; reflexivity.
Qed.

(** C10: for a response that is not ok and has status [n], the published
    error is the [Error] whose message is "Request failed with status "
    followed by the decimal digits of [n], and it is the error of the
    state observed afterwards; when [fetch] rejects, or [res.json()]
    rejects, the published error is the rejection reason itself. *)
Theorem C10_published_error_values :
  (∀ (n : N) (j : Settled Json),
     ∃ e, snd (chain (Fulfilled (mkResponse false n j)))
          = [ {| data := JNull; loading := false; error := Some e |} ]
          ∧ e = Error (status_message n)
          ∧ err_message e = "Request failed with status " +:+ pretty n)
  ∧ (∀ e : JsError,
       snd (chain (Rejected e))
       = [ {| data := JNull; loading := false; error := Some e |} ])
  ∧ (∀ (n : N) (e : JsError),
       snd (chain (Fulfilled (mkResponse true n (Rejected e))))
       = [ {| data := JNull; loading := false; error := Some e |} ])
  ∧ (∀ (url : string) (n : N) (j : Settled Json),
       hook_state (run [Render url; Settles 0 (Fulfilled (mkResponse false n j))])
       = {| data := JNull; loading := false;
            error := Some (Error ("Request failed with status " +:+ pretty n)) |})
  ∧ status_message 404 = "Request failed with status 404"
  ∧ status_message 500 = "Request failed with status 500".
Proof.
  split; [|repeat split].
  intros n j. exists (Error (status_message n)). by repeat split.
Qed.

(** ** Order of publications *)

Lemma published_wf (evs : list Event) (p : Pub) :
  p ∈ published (run evs) → pub_wf p.
Proof.
  revert p. induction evs as [|e evs IH] using rev_ind; intros p Hp.
  - by apply elem_of_nil in Hp.
  - rewrite run_snoc in Hp. destruct e as [u|rid r|].
    + destruct (alive (run evs)) eqn:Ha; [|rewrite render_dead in Hp by done; auto].
      destruct (decide (deps (run evs) = Some u)) as [Hd|Hd].
      * rewrite render_same in Hp by done. auto.
      * rewrite render_changed in Hp by done. simpl in Hp.
        apply elem_of_app in Hp as [Hp|Hp]; [auto|].
        by apply list_elem_of_singleton in Hp as ->.
    + simpl in Hp. destruct (inflight (run evs) !! rid) as [u|] eqn:Hl;
        [|rewrite settle_unknown in Hp by done; auto].
      rewrite (settle_inflight _ _ _ _ Hl) in Hp. simpl in Hp.
      apply elem_of_app in Hp as [Hp|Hp]; [auto|].
      apply list_elem_of_singleton in Hp as ->. by exists r.
    + simpl in Hp. auto.
Qed.

(** C5: in the log of [setState] calls of any run, a success or error
    publication of a retrieval is not loading and comes strictly after the
    form (a) publication of that same retrieval (same url). *)
Theorem C5_loading_published_first
    (evs : list Event) (l1 l2 : list Pub) (p : Pub) :
  published (run evs) = l1 ++ p :: l2 →
  pub_kind p = Settle →
  loading (pub_state p) = false
  ∧ ∃ q, q ∈ l1 ∧ pub_req q = pub_req p ∧ pub_url q = pub_url p
         ∧ pub_kind q = Trigger ∧ form_a (pub_state q).
Proof.
  intros Heq Hk. split.
  - assert (Hp : p ∈ published (run evs)).
    { rewrite Heq. apply elem_of_app. right. by left. }
    apply published_wf in Hp. unfold pub_wf in Hp. rewrite Hk in Hp.
    destruct Hp as [r ->]. apply outcome_not_loading.
  - destruct (inv_ordered _ (Inv_run evs) l1 p l2 Heq Hk)
      as (q & Hq & Hr & Hu & Hkq & Hs).
    exists q. rewrite Hs. by repeat split.
Qed.

Lemma C5_loading_published_first_witness :
  published (run [Render "/todos/1"; Settles 0 (ok_response todo1)])
  = [mkPub 0 "/todos/1" Trigger loading_state]
    ++ mkPub 0 "/todos/1" Settle (data_state todo1) :: []
  ∧ pub_kind (mkPub 0 "/todos/1" Settle (data_state todo1)) = Settle
  ∧ ∃ q, q ∈ [mkPub 0 "/todos/1" Trigger loading_state]
         ∧ pub_req q = 0 ∧ pub_url q = "/todos/1"
         ∧ pub_kind q = Trigger ∧ form_a (pub_state q).
Proof.
  split; [reflexivity|]. split; [reflexivity|].
  apply (C5_loading_published_first
           [Render "/todos/1"; Settles 0 (ok_response todo1)]
           [mkPub 0 "/todos/1" Trigger loading_state] []
           (mkPub 0 "/todos/1" Settle (data_state todo1)));
    reflexivity.
Defined.

(** C6: a render whose url differs from the one of the previous render
    resets the state to [{ data: null, loading: true, error: null }]
    (form (a)) by a [setState] call made before [fetch] is issued; after
    that render the new retrieval is outstanding and nothing has been
    published from its callbacks. *)
Theorem C6_url_change_resets_to_loading (evs : list Event) (url : string) :
  alive (run evs) = true →
  deps (run evs) ≠ Some url →
  let w := run evs in
  let w' := step w (Render url) in
  hook_state w' = {| data := JNull; loading := true; error := None |}
  ∧ form_a (hook_state w')
  ∧ published w' = published w ++ [mkPub (next_req w) url Trigger loading_state]
  ∧ fetches w' = fetches w ++ [(next_req w, url)]
  ∧ inflight w' !! next_req w = Some url
  ∧ (∀ p, p ∈ published w' → pub_req p = next_req w → pub_kind p = Trigger).
Proof.
  intros Ha Hd w w'. subst w w'.
  rewrite render_changed by done. simpl.
  split; [done|]. split; [by repeat split|]. split; [done|]. split; [done|].
  split; [apply lookup_insert_eq|].
  intros p Hp Hr. apply elem_of_app in Hp as [Hp|Hp].
  - apply (inv_published _ (Inv_run evs)) in Hp. lia.
  - by apply list_elem_of_singleton in Hp as ->.
Qed.

Lemma C6_url_change_resets_to_loading_witness :
  alive (run [Render "/todos/1"; Settles 0 (ok_response todo1)]) = true
  ∧ deps (run [Render "/todos/1"; Settles 0 (ok_response todo1)]) ≠ Some "/todos/2"
  ∧ hook_state (run [Render "/todos/1"; Settles 0 (ok_response todo1)])
    = data_state todo1
  ∧ hook_state (step (run [Render "/todos/1"; Settles 0 (ok_response todo1)])
                  (Render "/todos/2"))
    = {| data := JNull; loading := true; error := None |}.
Proof.
  split; [reflexivity|]. split; [discriminate|]. split; [reflexivity|].
  apply (C6_url_change_resets_to_loading
           [Render "/todos/1"; Settles 0 (ok_response todo1)] "/todos/2");
    [reflexivity|discriminate].
Defined.

(** ** Outbound retrievals *)

Lemma settle_keeps (w : World) (rid : nat) (r : Settled Response) :
  fetches (settle rid r w) = fetches w
  ∧ deps (settle rid r w) = deps w ∧ alive (settle rid r w) = alive w.
Proof.
  destruct (inflight w !! rid) as [u|] eqn:Hl.
  - by rewrite (settle_inflight _ _ _ _ Hl).
  - by rewrite settle_unknown.
Qed.

Lemma fetches_foldl (evs : list Event) (w : World) :
  length (fetches (foldl step w evs))
  = length (fetches w) + triggers (deps w) (alive w) evs.
Proof.
  revert w. induction evs as [|e evs IH]; intros w; simpl foldl.
  - simpl. lia.
  - rewrite IH. destruct e as [u|rid r|]; cbn [triggers].
    + destruct (alive w) eqn:Ha; [|by rewrite render_dead, Ha].
      destruct (decide (deps w = Some u)) as [Hd|Hd].
      * rewrite render_same by done. rewrite Ha, Hd. done.
      * rewrite render_changed by done. simpl. rewrite length_app. simpl. lia.
    + simpl step. destruct (settle_keeps w rid r) as (-> & -> & ->). done.
    + done.
Qed.

Lemma run_same_url (u : string) (n : nat) :
  run (replicate (S n) (Render u)) = run [Render u].
Proof.
  induction n as [|n IH]; [done|].
  rewrite (replicate_S_end (S n)), run_snoc, IH.
  by apply render_same.
Qed.

(** C7: a render whose url changed issues exactly one [fetch], for that
    url, whatever was fetched or is outstanding already; a render with the
    url of the previous render issues none, so rendering the same url any
    number of times issues one retrieval in all; settlements and teardown
    issue none; and over a whole run the number of [fetch] calls is the
    number of triggers. *)
Theorem C7_one_fetch_per_trigger :
  (∀ (w : World) (u : string),
     alive w = true → deps w ≠ Some u →
     fetches (step w (Render u)) = fetches w ++ [(next_req w, u)])
  ∧ (∀ (w : World) (u : string),
       deps w = Some u → fetches (step w (Render u)) = fetches w)
  ∧ (∀ (w : World) (rid : nat) (r : Settled Response),
       fetches (step w (Settles rid r)) = fetches w)
  ∧ (∀ w : World, fetches (step w Unmount) = fetches w)
  ∧ (∀ (u : string) (n : nat),
       fetches (run (replicate (S n) (Render u))) = [(0, u)])
  ∧ (∀ evs : list Event,
       length (fetches (run evs)) = triggers None true evs)
  ∧ fetches (run [Render "/todos/1"; Render "/todos/2"; Render "/todos/1"])
    = [(0, "/todos/1"); (1, "/todos/2"); (2, "/todos/1")].
Proof.
  split; [|split; [|split; [|split; [|split; [|split]]]]].
  - intros w u Ha Hd. by rewrite render_changed.
  - intros w u Hd. by rewrite render_same.
  - intros w rid r. apply settle_keeps.
  - done.
  - intros u n. by rewrite run_same_url.
  - intros evs. unfold run. by rewrite fetches_foldl.
  - reflexivity.
Qed.

Lemma C7_one_fetch_per_trigger_witness :
  alive (run [Render "/todos/1"]) = true
  ∧ deps (run [Render "/todos/1"]) ≠ Some "/todos/2"
  ∧ fetches (step (run [Render "/todos/1"]) (Render "/todos/2"))
    = fetches (run [Render "/todos/1"]) ++ [(1, "/todos/2")]
  ∧ deps (run [Render "/todos/1"]) = Some "/todos/1"
  ∧ fetches (step (run [Render "/todos/1"]) (Render "/todos/1"))
    = fetches (run [Render "/todos/1"]).
Proof.
  split; [reflexivity|]. split; [discriminate|].
  split; [|split; [reflexivity|]].
  - apply (proj1 C7_one_fetch_per_trigger (run [Render "/todos/1"]) "/todos/2");
      [reflexivity|discriminate].
  - apply (proj1 (proj2 C7_one_fetch_per_trigger)
             (run [Render "/todos/1"]) "/todos/1").
    reflexivity.
Defined.

(** ** The first render *)

Lemma unsettled_loading (evs : list Event) :
  Forall (λ e, is_settlement e = false) evs →
  hook_state (run evs) = loading_state.
Proof.
  induction evs as [|e evs IH] using rev_ind; intros Hall; [done|].
  apply Forall_app in Hall as [Hevs He]. apply (proj1 (Forall_singleton _ e)) in He. simpl in He.
  specialize (IH Hevs). rewrite run_snoc.
  destruct e as [u|rid r|]; [|discriminate He|done].
  destruct (alive (run evs)) eqn:Ha; [|by rewrite render_dead].
  destruct (decide (deps (run evs) = Some u)) as [Hd|Hd].
  - by rewrite render_same.
  - by rewrite render_changed.
Qed.

(** C8: on its first render, for every url, the hook returns exactly
    [{ data: null, loading: true, error: null }], form (a); and as long as
    no retrieval has settled every render returns that state, so there is
    no idle state apart from loading. *)
Theorem C8_first_render_is_loading (url : string) :
  fst (useFetch url init) = {| data := JNull; loading := true; error := None |}
  ∧ form_a (fst (useFetch url init))
  ∧ (∀ evs : list Event,
       Forall (λ e, is_settlement e = false) evs →
       fst (useFetch url (run evs))
       = {| data := JNull; loading := true; error := None |}).
Proof.
  split; [done|]. split; [by repeat split|].
  intros evs Hall. simpl. by apply unsettled_loading.
Qed.

Lemma C8_first_render_is_loading_witness :
  Forall (λ e, is_settlement e = false) [Render "/todos/1"; Render "/todos/2"]
  ∧ fst (useFetch "/todos/2" (run [Render "/todos/1"; Render "/todos/2"]))
    = {| data := JNull; loading := true; error := None |}.
Proof.
  assert (Hall : Forall (λ e, is_settlement e = false)
                   [Render "/todos/1"; Render "/todos/2"]).
  { repeat constructor. }
  split; [exact Hall|].
  apply (proj2 (proj2 (C8_first_render_is_loading "/todos/2"))
           [Render "/todos/1"; Render "/todos/2"] Hall).
Defined.

(** * Further properties of the hook *)

(** ** Teardown *)

Lemma run_app (evs evs' : list Event) :
  run (evs ++ evs') = foldl step (run evs) evs'.
Proof. unfold run. apply foldl_app. Qed.

Lemma dead_frozen (evs : list Event) (w : World) :
  alive w = false →
  alive (foldl step w evs) = false
  ∧ hook_state (foldl step w evs) = hook_state w
  ∧ deps (foldl step w evs) = deps w
  ∧ fetches (foldl step w evs) = fetches w
  ∧ next_req (foldl step w evs) = next_req w
  ∧ ∃ l, published (foldl step w evs) = published w ++ l
         ∧ Forall (λ p, pub_kind p = Settle) l.
Proof.
  revert w. induction evs as [|e evs IH]; intros w Ha; simpl foldl.
  - repeat split; try done. exists []. by rewrite app_nil_r.
  - assert (Hs : alive (step w e) = false ∧ hook_state (step w e) = hook_state w
                 ∧ deps (step w e) = deps w ∧ fetches (step w e) = fetches w
                 ∧ next_req (step w e) = next_req w
                 ∧ ∃ l, published (step w e) = published w ++ l
                        ∧ Forall (λ p, pub_kind p = Settle) l).
    { destruct e as [u|rid r|].
      - rewrite render_dead by done. repeat split; try done.
        exists []. by rewrite app_nil_r.
      - simpl. destruct (inflight w !! rid) as [u|] eqn:Hl.
        + rewrite (settle_inflight _ _ _ _ Hl). simpl. rewrite Ha.
          repeat split; try done. eexists. split; [done|].
          by apply Forall_singleton.
        + rewrite settle_unknown by done. repeat split; try done.
          exists []. by rewrite app_nil_r.
      - simpl. repeat split; try done. exists []. by rewrite app_nil_r. }
    destruct Hs as (Ha' & Hh & Hd & Hf & Hn & l & Hp & Hl).
    destruct (IH _ Ha') as (Ha'' & Hh' & Hd' & Hf' & Hn' & l' & Hp' & Hl').
    repeat split; try congruence.
    exists (l ++ l'). split.
    + by rewrite Hp', Hp, app_assoc.
    + by apply Forall_app.
Qed.

(** X1: teardown is final.  Once the component has been torn down, no
    later event (render, settlement, a second teardown) changes the stored
    state or the url, and no [fetch] is issued any more; the only
    [setState] calls still made are those of the promise callbacks of
    retrievals that were outstanding. *)
Theorem X1_teardown_is_final (evs evs' : list Event) :
  alive (run evs) = false →
  alive (run (evs ++ evs')) = false
  ∧ hook_state (run (evs ++ evs')) = hook_state (run evs)
  ∧ deps (run (evs ++ evs')) = deps (run evs)
  ∧ fetches (run (evs ++ evs')) = fetches (run evs)
  ∧ ∃ l, published (run (evs ++ evs')) = published (run evs) ++ l
         ∧ Forall (λ p, pub_kind p = Settle) l.
Proof.
  intros Ha. rewrite run_app.
  destruct (dead_frozen evs' _ Ha) as (? & ? & ? & ? & _ & ?). done.
Qed.

Lemma X1_teardown_is_final_witness :
  alive (run [Render "/todos/1"; Unmount]) = false
  ∧ hook_state (run ([Render "/todos/1"; Unmount]
                     ++ [Settles 0 (ok_response todo1); Render "/todos/2"]))
    = hook_state (run [Render "/todos/1"; Unmount]).
Proof.
  split; [reflexivity|].
  apply (X1_teardown_is_final [Render "/todos/1"; Unmount]
           [Settles 0 (ok_response todo1); Render "/todos/2"]).
  reflexivity.
Defined.

(** ** Publications per retrieval *)

Lemma count_pubs_snoc (rid : nat) (k : PubKind) (l : list Pub) (p : Pub) :
  count_pubs rid k (l ++ [p])
  = count_pubs rid k l
    + (if decide (pub_req p = rid ∧ pub_kind p = k) then 1 else 0).
Proof.
  unfold count_pubs. rewrite filter_app, length_app. f_equal.
  rewrite filter_cons, filter_nil. by case_decide.
Qed.

Lemma inflight_fresh (w : World) : Inv w → inflight w !! next_req w = None.
Proof.
  intros HI. destruct (inflight w !! next_req w) as [u|] eqn:Hl; [|done].
  apply (inv_inflight _ HI) in Hl as [Hlt _]. lia.
Qed.

Ltac count_cases :=
  repeat case_decide; simpl in *; try lia; exfalso;
  repeat match goal with
         | H : _ ∧ _ |- _ => destruct H
         | H : ¬ (_ ∧ _) |- _ => apply not_and_l in H as [H|H]
         end;
  first [lia | congruence].

Lemma run_counts (evs : list Event) (rid : nat) :
  count_pubs rid Trigger (published (run evs))
  = (if decide (rid < next_req (run evs)) then 1 else 0)
  ∧ count_pubs rid Settle (published (run evs))
    = (if decide (rid < next_req (run evs) ∧ inflight (run evs) !! rid = None)
       then 1 else 0)
  ∧ length (published (run evs)) + size (inflight (run evs))
    = 2 * next_req (run evs).
Proof.
  induction evs as [|e evs IH] using rev_ind.
  - simpl. repeat split; done.
  - pose proof (Inv_run evs) as HI. rewrite run_snoc.
    destruct IH as (IHt & IHs & IHn). destruct e as [u|rid0 r|].
    + destruct (alive (run evs)) eqn:Ha; [|by rewrite render_dead].
      destruct (decide (deps (run evs) = Some u)) as [Hd|Hd];
        [by rewrite render_same|].
      rewrite render_changed by done. simpl.
      rewrite !count_pubs_snoc, IHt, IHs. simpl.
      rewrite length_app, map_size_insert_None by by apply inflight_fresh.
      simpl. split; [|split; [|lia]].
      * count_cases.
      * destruct (decide (rid = next_req (run evs))) as [->|Hne].
        -- rewrite lookup_insert_eq. count_cases.
        -- rewrite lookup_insert_ne by done.
           count_cases.
    + simpl. destruct (inflight (run evs) !! rid0) as [u|] eqn:Hl;
        [|by rewrite settle_unknown].
      rewrite (settle_inflight _ _ _ _ Hl). simpl.
      destruct (inv_inflight _ HI _ _ Hl) as [Hlt _].
      rewrite !count_pubs_snoc, IHt, IHs. simpl.
      rewrite length_app. simpl.
      pose proof (map_size_delete_Some rid0 (inflight (run evs))
                    (ltac:(by eexists))) as Hsz.
      assert (size (inflight (run evs)) ≠ 0).
      { intros Hz. apply map_size_empty_inv in Hz. rewrite Hz in Hl.
        by rewrite lookup_empty in Hl. }
      split; [|split; [|lia]].
      * count_cases.
      * destruct (decide (rid = rid0)) as [->|Hne].
        -- rewrite lookup_delete_eq, Hl. count_cases.
        -- rewrite lookup_delete_ne by done.
           count_cases.
    + simpl. done.
Qed.

(** X2: every retrieval publishes at most twice.  In the log of
    [setState] calls of any run, a retrieval that has been issued has
    exactly one opening (loading) call, and exactly one call from its
    promise callbacks if it has settled and none while it is outstanding;
    a retrieval that was never issued has none.  So the log holds two
    calls per settled retrieval and one per outstanding retrieval. *)
Theorem X2_publications_per_retrieval (evs : list Event) (rid : nat) :
  count_pubs rid Trigger (published (run evs))
  = (if decide (rid < next_req (run evs)) then 1 else 0)
  ∧ count_pubs rid Settle (published (run evs))
    = (if decide (rid < next_req (run evs) ∧ inflight (run evs) !! rid = None)
       then 1 else 0)
  ∧ length (published (run evs)) + size (inflight (run evs))
    = 2 * length (fetches (run evs)).
Proof.
  rewrite (inv_fetches _ (Inv_run evs)). apply run_counts.
Qed.

(** ** Settlement order *)

(** X3: with two retrievals outstanding and the component mounted, the
    observed state after both have settled is the result of the one that
    settled last, whichever of the two belongs to the current url; both
    results are published, in settlement order. *)
Theorem X3_last_settlement_wins
    (evs : list Event) (rid1 rid2 : nat) (u1 u2 : string)
    (r1 r2 : Settled Response) :
  alive (run evs) = true →
  rid1 ≠ rid2 →
  inflight (run evs) !! rid1 = Some u1 →
  inflight (run evs) !! rid2 = Some u2 →
  hook_state (run (evs ++ [Settles rid1 r1; Settles rid2 r2])) = outcome r2
  ∧ hook_state (run (evs ++ [Settles rid2 r2; Settles rid1 r1])) = outcome r1
  ∧ published (run (evs ++ [Settles rid1 r1; Settles rid2 r2]))
    = published (run evs)
      ++ [mkPub rid1 u1 Settle (outcome r1); mkPub rid2 u2 Settle (outcome r2)]
  ∧ published (run (evs ++ [Settles rid2 r2; Settles rid1 r1]))
    = published (run evs)
      ++ [mkPub rid2 u2 Settle (outcome r2); mkPub rid1 u1 Settle (outcome r1)]
  ∧ deps (run (evs ++ [Settles rid1 r1; Settles rid2 r2])) = deps (run evs).
Proof.
  intros Ha Hne H1 H2. rewrite !run_app. simpl foldl.
  rewrite (settle_inflight _ _ _ _ H1), (settle_inflight _ _ _ _ H2).
  rewrite (settle_inflight _ rid2 u2) by (simpl; by rewrite lookup_delete_ne).
  rewrite (settle_inflight _ rid1 u1) by (simpl; by rewrite lookup_delete_ne).
  simpl. rewrite Ha, <- !app_assoc. done.
Qed.

Lemma X3_last_settlement_wins_witness :
  alive (run [Render "/todos/1"; Render "/todos/2"]) = true
  ∧ inflight (run [Render "/todos/1"; Render "/todos/2"]) !! 1 = Some "/todos/2"
  ∧ inflight (run [Render "/todos/1"; Render "/todos/2"]) !! 0 = Some "/todos/1"
  ∧ hook_state (run ([Render "/todos/1"; Render "/todos/2"]
                     ++ [Settles 1 (ok_response (JStr "two"));
                         Settles 0 (ok_response (JStr "one"))]))
    = outcome (ok_response (JStr "one")).
Proof.
  split; [reflexivity|]. split; [reflexivity|]. split; [reflexivity|].
  apply (X3_last_settlement_wins [Render "/todos/1"; Render "/todos/2"]
           1 0 "/todos/2" "/todos/1");
    [reflexivity|lia|reflexivity|reflexivity].
Defined.

(** ** Loading and the outstanding retrieval *)

Lemma loading_outstanding (evs : list Event) (u : string) :
  alive (run evs) = true →
  loading (hook_state (run evs)) = true →
  deps (run evs) = Some u →
  hook_state (run evs) = loading_state
  ∧ ∃ rid, S rid = next_req (run evs) ∧ inflight (run evs) !! rid = Some u.
Proof.
  revert u. induction evs as [|e evs IH] using rev_ind; intros u.
  - discriminate.
  - rewrite run_snoc. destruct e as [u'|rid r|].
    + destruct (alive (run evs)) eqn:Ha; [|rewrite render_dead by done; congruence].
      destruct (decide (deps (run evs) = Some u')) as [Hd|Hd].
      * rewrite render_same by done. auto.
      * rewrite render_changed by done. simpl. intros _ _ [= <-].
        split; [done|]. exists (next_req (run evs)).
        split; [done|]. apply lookup_insert_eq.
    + simpl. destruct (inflight (run evs) !! rid) as [u'|] eqn:Hl;
        [|rewrite settle_unknown by done; auto].
      rewrite (settle_inflight _ _ _ _ Hl). simpl. intros ->.
      by rewrite outcome_not_loading.
    + simpl. discriminate.
Qed.

(** X4: a mounted component that has rendered and shows loading = true is
    in the state [{ data: null, loading: true, error: null }] and the
    retrieval for its current url, the latest one issued, is still
    outstanding.  The converse does not hold: a stale settlement can end
    the loading state while the current retrieval is outstanding. *)
Theorem X4_loading_means_outstanding (evs : list Event) (u : string) :
  alive (run evs) = true →
  loading (fst (useFetch u (run evs))) = true →
  deps (run evs) = Some u →
  fst (useFetch u (run evs)) = {| data := JNull; loading := true; error := None |}
  ∧ ∃ rid, S rid = next_req (run evs)
           ∧ inflight (run evs) !! rid = Some u
           ∧ last (fetches (run evs)) = Some (rid, u).
Proof.
  simpl. intros Ha Hl Hd.
  destruct (loading_outstanding evs u Ha Hl Hd) as (Hs & rid & Hr & Hin).
  split; [done|]. exists rid. split; [done|]. split; [done|].
  clear Hs Hl. revert u rid Ha Hd Hr Hin.
  induction evs as [|e evs IH] using rev_ind; intros u rid; [discriminate|].
  rewrite run_snoc. destruct e as [u'|rid' r|].
  - destruct (alive (run evs)) eqn:Ha; [|rewrite render_dead by done; congruence].
    destruct (decide (deps (run evs) = Some u')) as [Hd|Hd].
    + rewrite render_same by done. auto.
    + rewrite render_changed by done. simpl. intros _ [= <-] [= <-] _.
      by rewrite last_snoc.
  - simpl. destruct (inflight (run evs) !! rid') as [u'|] eqn:Hl;
      [|rewrite settle_unknown by done; auto].
    rewrite (settle_inflight _ _ _ _ Hl). simpl. intros Ha Hd Hr Hin.
    apply lookup_delete_Some in Hin as [_ Hin]. by apply IH.
  - simpl. discriminate.
Qed.

Lemma X4_loading_means_outstanding_witness :
  alive (run [Render "/todos/1"; Settles 0 (ok_response todo1); Render "/todos/2"])
  = true
  ∧ ∃ rid, S rid = 2
      ∧ inflight (run [Render "/todos/1"; Settles 0 (ok_response todo1);
                       Render "/todos/2"]) !! rid = Some "/todos/2"
      ∧ last (fetches (run [Render "/todos/1"; Settles 0 (ok_response todo1);
                            Render "/todos/2"])) = Some (rid, "/todos/2").
Proof.
  split; [reflexivity|].
  apply (X4_loading_means_outstanding
           [Render "/todos/1"; Settles 0 (ok_response todo1); Render "/todos/2"]
           "/todos/2"); reflexivity.
Defined.

(** ** The log of [fetch] calls *)

Lemma deps_last_fetch (evs : list Event) :
  deps (run evs) = snd <$> last (fetches (run evs)).
Proof.
  induction evs as [|e evs IH] using rev_ind; [done|].
  rewrite run_snoc. destruct e as [u|rid r|].
  - destruct (alive (run evs)) eqn:Ha; [|by rewrite render_dead].
    destruct (decide (deps (run evs) = Some u)) as [Hd|Hd].
    + by rewrite render_same.
    + rewrite render_changed by done. simpl. by rewrite last_snoc.
  - simpl. destruct (settle_keeps (run evs) rid r) as (-> & -> & _). done.
  - done.
Qed.

(** X5: the [fetch] calls of a run are numbered 0, 1, 2, ... in the order
    they were issued; two consecutive calls never target the same url; and
    the url of the last render is the url of the most recent call (there
    is no call before the first render). *)
Theorem X5_fetch_log_shape (evs : list Event) :
  (∀ (i rid : nat) (u : string),
     fetches (run evs) !! i = Some (rid, u) → rid = i)
  ∧ (∀ (i : nat) (a b : nat * string),
       fetches (run evs) !! i = Some a → fetches (run evs) !! S i = Some b →
       a.2 ≠ b.2)
  ∧ deps (run evs) = snd <$> last (fetches (run evs)).
Proof.
  split; [|split; [|apply deps_last_fetch]].
  - induction evs as [|e evs IH] using rev_ind; intros i rid u.
    + simpl. by rewrite lookup_nil.
    + rewrite run_snoc. destruct e as [u'|rid' r|].
      * destruct (alive (run evs)) eqn:Ha; [|rewrite render_dead by done; eauto].
        destruct (decide (deps (run evs) = Some u')) as [Hd|Hd].
        -- rewrite render_same by done. eauto.
        -- rewrite render_changed by done. simpl. intros Hl.
           apply lookup_snoc_Some in Hl as [[_ Hl]|[-> [= <- _]]]; [eauto|].
           symmetry. apply (inv_fetches _ (Inv_run evs)).
      * simpl. destruct (settle_keeps (run evs) rid' r) as (-> & _). eauto.
      * simpl. eauto.
  - induction evs as [|e evs IH] using rev_ind; intros i a b.
    + simpl. by rewrite lookup_nil.
    + rewrite run_snoc. destruct e as [u'|rid' r|].
      * destruct (alive (run evs)) eqn:Ha; [|rewrite render_dead by done; eauto].
        destruct (decide (deps (run evs) = Some u')) as [Hd|Hd].
        -- rewrite render_same by done. eauto.
        -- rewrite render_changed by done. simpl. intros Ha' Hb.
           apply lookup_snoc_Some in Hb as [[Hlt Hb]|[Hlen <-]].
           ++ rewrite lookup_app_l in Ha' by lia. eauto.
           ++ rewrite lookup_app_l in Ha' by lia. simpl. intros Heq.
              apply Hd. rewrite deps_last_fetch, last_lookup, <- Hlen. simpl.
              by rewrite Ha', <- Heq.
      * simpl. destruct (settle_keeps (run evs) rid' r) as (-> & _). eauto.
      * simpl. eauto.
Qed.

Lemma X5_fetch_log_shape_witness :
  fetches (run [Render "/todos/1"; Render "/todos/2"; Render "/todos/1"]) !! 1
  = Some (1, "/todos/2")
  ∧ fetches (run [Render "/todos/1"; Render "/todos/2"; Render "/todos/1"]) !! 2
    = Some (2, "/todos/1")
  ∧ (1, "/todos/2").2 ≠ (2, "/todos/1").2.
Proof.
  split; [reflexivity|]. split; [reflexivity|].
  apply (proj1 (proj2 (X5_fetch_log_shape
                         [Render "/todos/1"; Render "/todos/2"; Render "/todos/1"]))
           1 (1, "/todos/2") (2, "/todos/1")); reflexivity.
Defined.

(** ** Status errors *)

Lemma status_message_inj (n m : N) :
  status_message n = status_message m → n = m.
Proof.
  unfold status_message. cbn [String.append]. intros Heq.
  apply (inj pretty). by simplify_eq.
Qed.

(** X6: two responses that are not ok publish the same state only if they
    carry the same status code: the status can be read back from the
    published error message, whatever the bodies were. *)
Theorem X6_status_error_determines_status
    (n m : N) (j j' : Settled Json) :
  chain (Fulfilled (mkResponse false n j))
  = chain (Fulfilled (mkResponse false m j')) →
  n = m.
Proof.
  rewrite !chain_not_ok. intros Heq. apply status_message_inj.
  apply (f_equal (λ p : Promise unit,
                    match snd p with
                    | s :: _ => from_option err_message ""%string (error s)
                    | [] => ""%string
                    end)) in Heq.
  exact Heq.
Qed.

Lemma X6_status_error_determines_status_witness :
  chain (Fulfilled (mkResponse false 404 (Fulfilled JNull)))
  = chain (Fulfilled (mkResponse false 404 (Rejected (Error "bad body"))))
  ∧ 404%N = 404%N.
Proof.
  split; [reflexivity|].
  apply (X6_status_error_determines_status 404 404
           (Fulfilled JNull) (Rejected (Error "bad body"))).
  reflexivity.
Defined.

(** ** The observed state *)

(** X7: while the component is mounted, the state the hook returns is the
    argument of the most recent [setState] call, and the initial state
    when no call has been made yet. *)
Theorem X7_observed_is_last_publication (evs : list Event) (url : string) :
  alive (run evs) = true →
  fst (useFetch url (run evs))
  = default {| data := JNull; loading := true; error := None |}
      (pub_state <$> last (published (run evs))).
Proof.
  simpl. induction evs as [|e evs IH] using rev_ind; [done|].
  rewrite run_snoc. destruct e as [u|rid r|].
  - destruct (alive (run evs)) eqn:Ha; [|rewrite render_dead by done; congruence].
    destruct (decide (deps (run evs) = Some u)) as [Hd|Hd].
    + rewrite render_same by done. auto.
    + rewrite render_changed by done. simpl. by rewrite last_snoc.
  - simpl. destruct (inflight (run evs) !! rid) as [u|] eqn:Hl;
      [|rewrite settle_unknown by done; auto].
    rewrite (settle_inflight _ _ _ _ Hl). simpl. intros ->.
    by rewrite last_snoc.
  - simpl. discriminate.
Qed.

Lemma X7_observed_is_last_publication_witness :
  alive (run [Render "/todos/1"; Render "/todos/2";
              Settles 0 (ok_response todo1)]) = true
  ∧ fst (useFetch "/todos/2"
           (run [Render "/todos/1"; Render "/todos/2";
                 Settles 0 (ok_response todo1)]))
    = default {| data := JNull; loading := true; error := None |}
        (pub_state <$> last (published
           (run [Render "/todos/1"; Render "/todos/2";
                 Settles 0 (ok_response todo1)]))).
Proof.
  split; [reflexivity|].
  apply (X7_observed_is_last_publication
           [Render "/todos/1"; Render "/todos/2"; Settles 0 (ok_response todo1)]
           "/todos/2").
  reflexivity.
Defined.

(** X8: re-rendering with the url of the last render, any number of times
    and in any state (loading, data or error), changes nothing: no
    [setState] call, no [fetch].  So the re-renders caused by the hook's
    own [setState] calls do not run the effect again, and a failed
    retrieval is not retried until the url changes. *)
Theorem X8_same_url_renders_are_quiescent
    (evs : list Event) (u : string) (n : nat) :
  deps (run evs) = Some u →
  run (evs ++ replicate n (Render u)) = run evs.
Proof.
  intros Hd. induction n as [|n IH].
  - by rewrite app_nil_r.
  - rewrite replicate_S_end, app_assoc, run_snoc, IH.
    by apply render_same.
Qed.

Lemma X8_same_url_renders_are_quiescent_witness :
  deps (run [Render "/todos/999999";
             Settles 0 (Fulfilled (mkResponse false 404 (Fulfilled JNull)))])
  = Some "/todos/999999"
  ∧ fetches (run ([Render "/todos/999999";
                   Settles 0 (Fulfilled (mkResponse false 404 (Fulfilled JNull)))]
                  ++ replicate 3 (Render "/todos/999999")))
    = [(0, "/todos/999999")].
Proof.
  split; [reflexivity|].
  rewrite (X8_same_url_renders_are_quiescent
             [Render "/todos/999999";
              Settles 0 (Fulfilled (mkResponse false 404 (Fulfilled JNull)))]
             "/todos/999999" 3); reflexivity.
Defined.

(** ** The current retrieval *)

Lemma inflight_fetched (evs : list Event) (rid : nat) (u : string) :
  inflight (run evs) !! rid = Some u →
  fetches (run evs) !! rid = Some (rid, u).
Proof.
  revert rid u. induction evs as [|e evs IH] using rev_ind; intros rid u.
  - simpl. by rewrite lookup_empty.
  - pose proof (Inv_run evs) as HI. rewrite run_snoc.
    destruct e as [u'|rid' r|].
    + destruct (alive (run evs)) eqn:Ha; [|rewrite render_dead by done; auto].
      destruct (decide (deps (run evs) = Some u')) as [Hd|Hd].
      * rewrite render_same by done. auto.
      * rewrite render_changed by done. simpl. intros Hl.
        apply lookup_insert_Some in Hl as [[<- <-]|[Hne Hl]].
        -- apply lookup_snoc_Some. right.
           by rewrite (inv_fetches _ HI).
        -- apply lookup_snoc_Some. left.
           destruct (inv_inflight _ HI _ _ Hl) as [Hlt _].
           rewrite (inv_fetches _ HI). auto.
    + simpl. destruct (inflight (run evs) !! rid') as [u'|] eqn:Hl;
        [|rewrite settle_unknown by done; auto].
      rewrite (settle_inflight _ _ _ _ Hl). simpl. intros Hl'.
      apply lookup_delete_Some in Hl' as [_ Hl']. auto.
    + simpl. auto.
Qed.

(** X13: when the retrieval that settles is the latest one issued and the
    component is mounted, the observed state becomes that retrieval's
    result and the url of the last render is that retrieval's url: the
    state shown then belongs to the current url. *)
Theorem X13_latest_settlement_matches_url
    (evs : list Event) (rid : nat) (u : string) (r : Settled Response) :
  alive (run evs) = true →
  inflight (run evs) !! rid = Some u →
  S rid = next_req (run evs) →
  hook_state (run (evs ++ [Settles rid r])) = outcome r
  ∧ deps (run (evs ++ [Settles rid r])) = Some u
  ∧ last (published (run (evs ++ [Settles rid r])))
    = Some (mkPub rid u Settle (outcome r)).
Proof.
  intros Ha Hin Hr. rewrite run_snoc. simpl.
  rewrite (settle_inflight _ _ _ _ Hin). simpl. rewrite Ha, last_snoc.
  split; [done|]. split; [|done].
  rewrite deps_last_fetch, last_lookup, (inv_fetches _ (Inv_run evs)), <- Hr.
  simpl. by rewrite (inflight_fetched _ _ _ Hin).
Qed.

Lemma X13_latest_settlement_matches_url_witness :
  alive (run [Render "/todos/1"; Render "/todos/2"]) = true
  ∧ inflight (run [Render "/todos/1"; Render "/todos/2"]) !! 1 = Some "/todos/2"
  ∧ hook_state (run ([Render "/todos/1"; Render "/todos/2"]
                     ++ [Settles 1 (ok_response todo1)]))
    = outcome (ok_response todo1).
Proof.
  split; [reflexivity|]. split; [reflexivity|].
  apply (X13_latest_settlement_matches_url
           [Render "/todos/1"; Render "/todos/2"] 1 "/todos/2");
    reflexivity.
Defined.

(** X14: once every retrieval has settled, the result is terminal for the
    current url: further settlement events and renders with the same url
    change nothing; only a render with another url or the teardown does. *)
Theorem X14_settled_state_is_terminal
    (evs evs' : list Event) (u : string) :
  inflight (run evs) = ∅ →
  deps (run evs) = Some u →
  Forall (λ e, e = Render u ∨ is_settlement e = true) evs' →
  run (evs ++ evs') = run evs.
Proof.
  intros Hin Hd. induction evs' as [|e evs' IH] using rev_ind; intros Hall.
  - by rewrite app_nil_r.
  - apply Forall_app in Hall as [Hall He].
    apply (proj1 (Forall_singleton _ e)) in He. simpl in He.
    rewrite app_assoc, run_snoc, IH by done. destruct He as [->|He].
    + by apply render_same.
    + destruct e as [|rid r|]; try discriminate He. simpl.
      apply settle_unknown. by rewrite Hin, lookup_empty.
Qed.

Lemma X14_settled_state_is_terminal_witness :
  inflight (run [Render "/todos/1"; Settles 0 (ok_response todo1)]) = ∅
  ∧ deps (run [Render "/todos/1"; Settles 0 (ok_response todo1)]) = Some "/todos/1"
  ∧ hook_state (run ([Render "/todos/1"; Settles 0 (ok_response todo1)]
                     ++ [Settles 0 (ok_response JNull); Render "/todos/1"]))
    = data_state todo1.
Proof.
  assert (Hin : inflight (run [Render "/todos/1"; Settles 0 (ok_response todo1)])
                = ∅) by reflexivity.
  split; [exact Hin|]. split; [reflexivity|].
  rewrite (X14_settled_state_is_terminal
             [Render "/todos/1"; Settles 0 (ok_response todo1)]
             [Settles 0 (ok_response JNull); Render "/todos/1"] "/todos/1"
             Hin eq_refl).
  - reflexivity.
  - constructor; [by right|]. constructor; [by left|]. constructor.
Defined.

(** * Properties of the components *)

Lemma string_app_nil_r (s : string) : s +:+ "" = s.
Proof.
  induction s as [|c s IH]; [done|].
  change (String c (s +:+ "") = String c s). by rewrite IH.
Qed.





(** The menu of the application, as the page shows it. *)
Example ChaiList_menu :
  text_of (ChaiList [mkChai 1 "Masala" 35; mkChai 2 "Ginger" 20; mkChai 3 "Dum" 15;
                     mkChai 4 "Elaichi" 35; mkChai 5 "Irani" 20])
  = "Masala **35Ginger 20Dum 15Elaichi **35Irani 20".
Proof. vm_compute. reflexivity. Qed.

Lemma falsy_text (a : Node) :
  truthy a = false →
  text_of a = match a with NNum _ => "0" | _ => "" end.
Proof.
  destruct a as [| |b|n|s|tag cs|items]; simpl; try done.
  - intros Hn. apply negb_false_iff, Z.eqb_eq in Hn. by subst.
  - intros Hs. apply negb_false_iff, String.eqb_eq in Hs. by subst.
Qed.

(** X10: [Card] wraps a truthy [footer] in a footer element.  A falsy
    [footer] is put in the section as it is, without a footer element:
    when it is omitted, [null], [false] or the empty string nothing is
    shown for it, but the number 0 is shown as the text "0". *)
Theorem X10_Card_footer (title : string) (children footer : Node) :
  (truthy footer = true →
   Card title children footer
   = NElem "section" [ NElem "h2" [NStr title]; NElem "div" [children];
                       NElem "footer" [footer] ])
  ∧ (truthy footer = false →
     Card title children footer
     = NElem "section" [ NElem "h2" [NStr title]; NElem "div" [children]; footer ]
     ∧ text_of (Card title children footer)
       = title +:+ text_of children
         +:+ match footer with NNum _ => "0" | _ => "" end)
  ∧ text_of (Card title children (NNum 0)) = title +:+ text_of children +:+ "0"
  ∧ text_of (Card title children NUndefined) = title +:+ text_of children.
Proof.
  assert (Hfalsy : truthy footer = false →
    Card title children footer
    = NElem "section" [ NElem "h2" [NStr title]; NElem "div" [children]; footer ]
    ∧ text_of (Card title children footer)
      = title +:+ text_of children
        +:+ match footer with NNum _ => "0" | _ => "" end).
  { intros Hf. unfold Card, js_and. rewrite Hf. split; [done|].
    cbn [text_of]. rewrite (falsy_text _ Hf).
    by rewrite !string_app_nil_r. }
  split; [|split; [done|split]].
  - intros Hf. unfold Card, js_and. by rewrite Hf.
  - cbn -[String.append pretty]. by rewrite !string_app_nil_r.
  - cbn -[String.append]. by rewrite !string_app_nil_r.
Qed.

Lemma X10_Card_footer_witness :
  truthy (NElem "div" [NStr " All rights with Mayank"]) = true
  ∧ Card "Mayank Tea Stall" NUndefined (NElem "div" [NStr " All rights with Mayank"])
    = NElem "section"
        [ NElem "h2" [NStr "Mayank Tea Stall"]; NElem "div" [NUndefined];
          NElem "footer" [NElem "div" [NStr " All rights with Mayank"]] ]
  ∧ truthy (NNum 0) = false
  ∧ Card "t" NUndefined (NNum 0)
    = NElem "section" [ NElem "h2" [NStr "t"]; NElem "div" [NUndefined]; NNum 0 ].
Proof.
  split; [reflexivity|]. split.
  - apply (proj1 (X10_Card_footer "Mayank Tea Stall" NUndefined
                    (NElem "div" [NStr " All rights with Mayank"]))).
    reflexivity.
  - split; [reflexivity|].
    apply (proj1 (proj2 (X10_Card_footer "t" NUndefined (NNum 0)))).
    reflexivity.
Defined.

(** ** The counter *)

Lemma js_succ_min (k : Z) :
  (0 ≤ k)%Z → js_succ (Z.min k (2 ^ 53)) = Z.min (k + 1) (2 ^ 53).
Proof. intros Hk. unfold js_succ. case_decide; lia. Qed.

Lemma clicks_snoc (evs : list CounterEvent) (e : CounterEvent) :
  clicks (evs ++ [e]) = clicks evs + (if decide (e = Click) then 1 else 0).
Proof.
  unfold clicks. rewrite filter_app, length_app. f_equal.
  rewrite filter_cons, filter_nil. by case_decide.
Qed.

Lemma flushed_click (st : CounterState) :
  flushed (counter_step st Click) = js_succ (flushed st).
Proof. unfold flushed. simpl. by rewrite foldl_snoc. Qed.

Lemma flushed_rerender (st : CounterState) :
  flushed (counter_step st Rerender) = flushed st.
Proof. done. Qed.

Lemma flushed_run (evs : list CounterEvent) :
  flushed (foldl counter_step counter_init evs)
  = Z.min (Z.of_nat (clicks evs)) (2 ^ 53).
Proof.
  induction evs as [|e evs IH] using rev_ind; [done|].
  rewrite foldl_snoc, clicks_snoc. destruct e.
  - rewrite decide_True by done. rewrite flushed_click, IH.
    rewrite js_succ_min by lia. f_equal. lia.
  - rewrite decide_False by done. rewrite flushed_rerender, IH.
    by rewrite Nat.add_0_r.
Qed.

(** X11: [Counter] shows the number of clicks so far, however the clicks
    were grouped between renders, because every click queues the updater
    [(c) => c + 1] rather than a value; the count stops at 2^53, where
    adding 1 to a JavaScript number no longer changes it. *)
Theorem X11_Counter_counts_clicks (evs : list CounterEvent) :
  fst (Counter (foldl counter_step counter_init evs))
  = NElem "div"
      [ NElem "p" [ NStr "Cups ordered : ";
                    NNum (Z.min (Z.of_nat (clicks evs)) (2 ^ 53)) ];
        NElem "button" [NStr "Order one more"] ].
Proof.
  unfold Counter. cbn [fst]. 
  fold (flushed (foldl counter_step counter_init evs)).
  by rewrite flushed_run.
Qed.

(** ** The order form *)

Section OrderFormProperties.

Context {number : Type} (Number : string → number) (one : number).

Lemma OrderForm_snoc (evs : list FormEvent) (e : FormEvent) :
  OrderForm Number one (evs ++ [e])
  = form_step Number (OrderForm Number one evs) e.
Proof. unfold OrderForm. by rewrite foldl_snoc. Qed.

Lemma OrderForm_state (evs : list FormEvent) :
  fst (OrderForm Number one evs)
  = {| form_name := default "Masala" (typed_name evs);
       form_cups := default one (Number <$> typed_cups evs) |}.
Proof.
  induction evs as [|e evs IH] using rev_ind; [done|].
  rewrite OrderForm_snoc. unfold typed_name, typed_cups in *.
  rewrite !omap_app. destruct e as [v|v|]; simpl; rewrite IH; simpl.
  - by rewrite last_snoc, app_nil_r.
  - by rewrite last_snoc, app_nil_r.
  - by rewrite !app_nil_r.
Qed.

(** X12: when the form is submitted, [preventDefault] is called and then
    [onSubmit] exactly once, with the text last typed into the name input
    ("Masala" if none was) and [Number] of the text last typed into the
    cups input (1 if none was); edits of one input never change the other
    field, and submitting leaves both fields as they are. *)
Theorem X12_OrderForm_submit (evs : list FormEvent) :
  OrderForm Number one (evs ++ [Submit])
  = (fst (OrderForm Number one evs),
     snd (OrderForm Number one evs)
     ++ [ PreventDefault;
          OnSubmit {| order_name := default "Masala" (typed_name evs);
                      order_cups := default one (Number <$> typed_cups evs) |} ])
  ∧ fst (OrderForm Number one (evs ++ [Submit]))
    = {| form_name := default "Masala" (typed_name evs);
         form_cups := default one (Number <$> typed_cups evs) |}
  ∧ (∀ v, snd (OrderForm Number one (evs ++ [ChangeName v]))
          = snd (OrderForm Number one evs)
          ∧ form_cups (fst (OrderForm Number one (evs ++ [ChangeName v])))
            = form_cups (fst (OrderForm Number one evs)))
  ∧ (∀ v, snd (OrderForm Number one (evs ++ [ChangeCups v]))
          = snd (OrderForm Number one evs)
          ∧ form_name (fst (OrderForm Number one (evs ++ [ChangeCups v])))
            = form_name (fst (OrderForm Number one evs))).
Proof.
  rewrite OrderForm_snoc. simpl. unfold handleSubmit.
  rewrite (OrderForm_state evs). simpl.
  split; [done|]. split; [done|].
  split; intros v; rewrite OrderForm_snoc; simpl; by rewrite ?OrderForm_state.
Qed.

End OrderFormProperties.
